(** * A shallow embedding of IceInternal::UdpTransceiver (Ice/UdpTransceiver.cpp)

    The transceiver drives one non-blocking UDP socket.  The operating system
    is not modelled operationally: every system call the code issues is
    recorded in a log kept with the transceiver state, and its result is
    supplied from the outside as an [OsResp] (return value, errno, and for
    [recvfrom] the sender address).  The [goto] labels of [read] and [write]
    become program counters; one step handles the result of one system call. *)

From Stdlib Require Import ZArith List Bool String Lia.
Import ListNotations.
Open Scope Z_scope.

Module Udp.

(** ** Constants (UdpTransceiver.cpp, last lines) *)

Definition udpOverhead : Z := 20 + 8.
Definition maxPacketSize : Z := 65535 - udpOverhead.

(** [static_cast<int>] of a [size_t]: the value modulo 2^32, read as a
    two's-complement 32-bit integer. *)
Definition to_int (z : Z) : Z :=
  let m := z mod 2 ^ 32 in if m >=? 2 ^ 31 then m - 2 ^ 32 else m.

Definition SOCKET_ERROR : Z := -1.

(** ** Addresses, errno and syscalls *)

Inductive Family := AF_INET | AF_INET6.

Record SockAddr := mkAddr {
  sa_family : Family;
  sa_multicast : bool;   (* IN_MULTICAST / IN6_IS_ADDR_MULTICAST *)
  sa_port : Z
}.

Inductive Errno := EINTR | EWOULDBLOCK | EMSGSIZE | EOTHER (code : Z).

Definition interrupted (e : Errno) : bool :=
  match e with EINTR => true | _ => false end.
Definition wouldBlock (e : Errno) : bool :=
  match e with EWOULDBLOCK => true | _ => false end.
Definition recvTruncated (e : Errno) : bool :=
  match e with EMSGSIZE => true | _ => false end.
Definition getSocketErrno (e : Errno) : Z :=
  match e with EINTR => 4 | EWOULDBLOCK => 11 | EMSGSIZE => 90 | EOTHER c => c end.

Inductive PollEvents := POLLIN | POLLOUT.

(** The calls the transceiver makes on its socket. *)
Inductive Syscall :=
| SysSend (len : Z)
| SysRecv (len : Z)
| SysRecvFrom (len : Z)
| SysPoll (events : PollEvents) (timeout : Z)
| SysConnect (peer : SockAddr)
| SysShutdown
| SysDisconnect
| SysDecoySend.

Definition is_poll (c : Syscall) : bool :=
  match c with SysPoll _ _ => true | _ => false end.
Definition is_recv (c : Syscall) : bool :=
  match c with SysRecv _ | SysRecvFrom _ => true | _ => false end.

(** The result of one syscall: return value, errno, sender of [recvfrom]. *)
Record OsResp := mkResp { r_ret : Z; r_errno : Errno; r_peer : SockAddr }.

(** ** Exceptions

    [throw X(...)] throws an exception object; [throw new X(...)] throws a
    pointer to a heap-allocated one, which is a different C++ type. *)
Inductive LocalException :=
| DatagramLimitException
| TimeoutException
| ConnectionLostException
| SocketException (error : Z)
| ConnectFailedException.

Inductive Thrown :=
| ThrowValue (e : LocalException)
| ThrowPointer (e : LocalException)
| ThrowBadAlloc.                 (* std::bad_alloc from the buffer container *)

(** Does [catch(const Ice::TimeoutException&)] catch it? *)
Definition caught_as_TimeoutException (t : Thrown) : bool :=
  match t with ThrowValue TimeoutException => true | _ => false end.
(** Does [catch(const Ice::LocalException&)] catch it? *)
Definition caught_as_LocalException (t : Thrown) : bool :=
  match t with ThrowValue _ => true | ThrowPointer _ | ThrowBadAlloc => false end.

Inductive Outcome := Returned (b : bool) | Raised (t : Thrown).

(** ** Buffers: the size of [buf.b] and the offset of the cursor [buf.i].
    The transceiver never inspects the bytes; it only hands them to the OS. *)
Record Buffer := mkBuf { b_size : Z; b_i : Z }.

Definition resize (buf : Buffer) (n : Z) : Buffer := mkBuf n (b_i buf).
Definition set_i (buf : Buffer) (i : Z) : Buffer := mkBuf (b_size buf) i.

(** ** Transceiver state *)
Record Transceiver := mkT {
  t_fd_valid : bool;            (* _fd != INVALID_SOCKET *)
  t_connect : bool;             (* _connect *)
  t_shutdownReadWrite : bool;   (* _shutdownReadWrite *)
  t_rcvSize : Z;                (* _rcvSize *)
  t_sndSize : Z;                (* _sndSize *)
  t_warn : bool;                (* _warn *)
  t_peer : option SockAddr;     (* the peer the OS socket is connected to *)
  t_log : list Syscall          (* syscalls issued on the socket, in order *)
}.

Definition log_call (st : Transceiver) (c : Syscall) : Transceiver :=
  mkT (t_fd_valid st) (t_connect st) (t_shutdownReadWrite st) (t_rcvSize st)
      (t_sndSize st) (t_warn st) (t_peer st) (t_log st ++ [c]).

Definition set_connected (st : Transceiver) (p : SockAddr) : Transceiver :=
  mkT (t_fd_valid st) false (t_shutdownReadWrite st) (t_rcvSize st)
      (t_sndSize st) (t_warn st) (Some p) (t_log st).

(** Result of a step or of a run: either waiting at a label for the result
    of the next syscall, or finished with an outcome. *)
Inductive Step (P : Type) :=
| Next (pc : P) (st : Transceiver) (buf : Buffer)
| Done (o : Outcome) (st : Transceiver) (buf : Buffer).
Arguments Next {P}.
Arguments Done {P}.

(** ** shutdownReadWrite

    [decoyWake] selects the platform branch (_WIN32, __sun, ...: disconnect
    and decoy datagram) against the plain [shutdownSocketReadWrite]. *)
Definition shutdownReadWrite (decoyWake : bool) (st : Transceiver) : Transceiver :=
  let st1 := mkT (t_fd_valid st) (t_connect st) true (t_rcvSize st)
                 (t_sndSize st) (t_warn st) (t_peer st) (t_log st) in
  let st2 := log_call st1 SysShutdown in
  if decoyWake then
    let st3 := if negb (t_connect st2)
               then log_call (mkT (t_fd_valid st2) (t_connect st2)
                                  (t_shutdownReadWrite st2) (t_rcvSize st2)
                                  (t_sndSize st2) (t_warn st2) None (t_log st2))
                             SysDisconnect
               else st2 in
    log_call st3 SysDecoySend
  else st2.

(** close(): the OS handle is released and marked invalid. *)
Definition close (st : Transceiver) : Transceiver :=
  mkT false (t_connect st) (t_shutdownReadWrite st) (t_rcvSize st)
      (t_sndSize st) (t_warn st) (t_peer st) (t_log st).

(** ** write(buf, timeout) *)

Inductive WritePC := W_Send | W_Poll.

Definition write_packetSize (st : Transceiver) : Z :=
  Z.min maxPacketSize (t_sndSize st - udpOverhead).

(** From entry to the first [send] (label [repeat]). *)
Definition write_begin (st : Transceiver) (buf : Buffer) : Step WritePC :=
  let packetSize := write_packetSize st in
  if packetSize <? to_int (b_size buf)
  then Done (Raised (ThrowValue DatagramLimitException)) st buf
  else Next W_Send st buf.

(** Label [repeatSelect]. *)
Definition write_repeatSelect (timeout : Z) (st : Transceiver) (buf : Buffer)
  : Step WritePC :=
  if timeout =? 0 then Done (Returned false) st buf else Next W_Poll st buf.

Definition write_step (timeout : Z) (pc : WritePC) (st : Transceiver)
    (buf : Buffer) (r : OsResp) : Step WritePC :=
  match pc with
  | W_Send =>
      let st := log_call st (SysSend (b_size buf)) in
      if r_ret r =? SOCKET_ERROR then
        if interrupted (r_errno r) then Next W_Send st buf
        else if wouldBlock (r_errno r) then write_repeatSelect timeout st buf
        else Done (Raised (ThrowValue (SocketException (getSocketErrno (r_errno r))))) st buf
      else Done (Returned true) st (set_i buf (b_size buf))
  | W_Poll =>
      let st := log_call st (SysPoll POLLOUT timeout) in
      if r_ret r =? SOCKET_ERROR then
        if interrupted (r_errno r) then write_repeatSelect timeout st buf
        else Done (Raised (ThrowValue (SocketException (getSocketErrno (r_errno r))))) st buf
      else if r_ret r =? 0 then
        Done (Raised (ThrowPointer TimeoutException)) st buf
      else Next W_Send st buf
  end.

(** ** The driver: events seen while a call is in progress are the results
    of its syscalls and concurrent calls of shutdownReadWrite. *)
Inductive Ev := EvResp (r : OsResp) | EvShutdown.

Fixpoint run {P : Type} (decoyWake : bool)
    (step : P -> Transceiver -> Buffer -> OsResp -> Step P)
    (evs : list Ev) (s : Step P) : Step P :=
  match s with
  | Done _ _ _ => s
  | Next pc st buf =>
      match evs with
      | [] => s
      | EvShutdown :: evs' =>
          run decoyWake step evs' (Next pc (shutdownReadWrite decoyWake st) buf)
      | EvResp r :: evs' => run decoyWake step evs' (step pc st buf r)
      end
  end.

Definition write (decoyWake : bool) (st : Transceiver) (buf : Buffer)
    (timeout : Z) (evs : list Ev) : Step WritePC :=
  run decoyWake (write_step timeout) evs (write_begin st buf).

(** ** read(buf, timeout) *)

(** [R_Recv]: the receive issued after the shutdown check;
    [R_Connect ret peer]: [doConnect] after a successful [recvfrom];
    [R_Poll]: the wait at label [repeatSelect]. *)
Inductive ReadPC := R_Recv | R_Connect (ret : Z) (peer : SockAddr) | R_Poll.

Definition read_packetSize (st : Transceiver) : Z :=
  Z.min maxPacketSize (t_rcvSize st - udpOverhead).

(** Label [repeat]: the shutdown flag is checked under the mutex. *)
Definition read_repeat (st : Transceiver) (buf : Buffer) : Step ReadPC :=
  if t_shutdownReadWrite st
  then Done (Raised (ThrowValue ConnectionLostException)) st buf
  else Next R_Recv st buf.

(** From entry to label [repeat]. *)
(** [buf.b.resize(packetSize)] takes a [size_t]: the [int] is converted
    modulo 2^64, so a negative [packetSize] (an [_rcvSize] below 28) asks for
    about 2^64 bytes.  The container cannot allocate more than PTRDIFF_MAX
    bytes and throws [std::bad_alloc], leaving the buffer as it was. *)
Definition to_size_t (z : Z) : Z := z mod 2 ^ 64.
Definition PTRDIFF_MAX : Z := 2 ^ 63 - 1.

Definition read_begin (st : Transceiver) (buf : Buffer) : Step ReadPC :=
  let packetSize := read_packetSize st in
  if packetSize <? to_int (b_size buf)
  then Done (Raised (ThrowValue DatagramLimitException)) st buf
  else
    let n := to_size_t packetSize in
    if PTRDIFF_MAX <? n then Done (Raised ThrowBadAlloc) st buf
    else read_repeat st (set_i (resize buf n) 0).

Definition read_success (ret : Z) (st : Transceiver) (buf : Buffer) : Step ReadPC :=
  let buf := resize buf ret in
  Done (Returned true) st (set_i buf (b_size buf)).

Definition read_step (timeout : Z) (packetSize : Z) (pc : ReadPC)
    (st : Transceiver) (buf : Buffer) (r : OsResp) : Step ReadPC :=
  match pc with
  | R_Recv =>
      let st := log_call st (if t_connect st then SysRecvFrom packetSize
                             else SysRecv packetSize) in
      if r_ret r =? SOCKET_ERROR then
        if interrupted (r_errno r) then read_repeat st buf
        else if wouldBlock (r_errno r) then
          if timeout =? 0 then Done (Returned false) st buf
          else Next R_Poll st buf
        else if recvTruncated (r_errno r)
        then Done (Raised (ThrowValue DatagramLimitException)) st buf
        else Done (Raised (ThrowValue (SocketException (getSocketErrno (r_errno r))))) st buf
      else if t_connect st then Next (R_Connect (r_ret r) (r_peer r)) st buf
      else read_success (r_ret r) st buf
  | R_Connect ret peer =>
      (* doConnect(_fd, peerAddr, -1); _connect = false; *)
      let st := log_call st (SysConnect peer) in
      if r_ret r =? SOCKET_ERROR
      then Done (Raised (ThrowValue ConnectFailedException)) st buf
      else read_success ret (set_connected st peer) buf
  | R_Poll =>
      (* poll(fdSet, 1, -1) / select(..., 0): the timeout is not passed *)
      let st := log_call st (SysPoll POLLIN (-1)) in
      if r_ret r =? SOCKET_ERROR then
        if interrupted (r_errno r) then Next R_Poll st buf
        else Done (Raised (ThrowValue (SocketException (getSocketErrno (r_errno r))))) st buf
      else if r_ret r =? 0 then
        Done (Raised (ThrowValue TimeoutException)) st buf
      else read_repeat st buf
  end.

Definition read (decoyWake : bool) (st : Transceiver) (buf : Buffer)
    (timeout : Z) (evs : list Ev) : Step ReadPC :=
  run decoyWake (read_step timeout (read_packetSize st)) evs (read_begin st buf).

(** ** setBufSize(instance)

    The kernel's socket options: the current buffer sizes, and how the
    kernel adjusts a requested size ("The kernel will silently adjust the
    size to an acceptable value"). *)
Record Kernel := mkKernel {
  k_rcv : Z;
  k_snd : Z;
  k_adjust_rcv : Z -> Z;
  k_adjust_snd : Z -> Z
}.

Definition getRecvBufferSize (k : Kernel) : Z := k_rcv k.
Definition getSendBufferSize (k : Kernel) : Z := k_snd k.
Definition setRecvBufferSize (k : Kernel) (n : Z) : Kernel :=
  mkKernel (k_adjust_rcv k n) (k_snd k) (k_adjust_rcv k) (k_adjust_snd k).
Definition setSendBufferSize (k : Kernel) (n : Z) : Kernel :=
  mkKernel (k_rcv k) (k_adjust_snd k n) (k_adjust_rcv k) (k_adjust_snd k).

(** The configuration: property name to its integer value, if set. *)
Definition Properties := string -> option Z.

Definition getPropertyAsIntWithDefault (props : Properties) (prop : string)
    (dflt : Z) : Z :=
  match props prop with Some v => v | None => dflt end.

Inductive Warning :=
| WarnInvalid (prop : string) (value adjusted : Z)
| WarnAdjusted (direction : string) (requested applied : Z).

Definition set_rcvSize (st : Transceiver) (n : Z) : Transceiver :=
  mkT (t_fd_valid st) (t_connect st) (t_shutdownReadWrite st) n
      (t_sndSize st) (t_warn st) (t_peer st) (t_log st).
Definition set_sndSize (st : Transceiver) (n : Z) : Transceiver :=
  mkT (t_fd_valid st) (t_connect st) (t_shutdownReadWrite st) (t_rcvSize st)
      n (t_warn st) (t_peer st) (t_log st).

(** One iteration of the [for(int i = 0; i < 2; ++i)] loop; [i = 0] is
    the receive direction, [i = 1] the send direction. *)
Definition setBufSize_iter (props : Properties) (i : Z)
    (acc : Transceiver * Kernel * list Warning) : Transceiver * Kernel * list Warning :=
  let '(st, k, ws) := acc in
  let direction := if i =? 0 then "receive"%string else "send"%string in
  let prop := if i =? 0 then "Ice.UDP.RcvSize"%string else "Ice.UDP.SndSize"%string in
  let dfltSize := if i =? 0 then getRecvBufferSize k else getSendBufferSize k in
  let st := if i =? 0 then set_rcvSize st dfltSize else set_sndSize st dfltSize in
  let sizeRequested := getPropertyAsIntWithDefault props prop dfltSize in
  let '(sizeRequested, ws) :=
    if sizeRequested <? udpOverhead
    then (dfltSize, ws ++ [WarnInvalid prop sizeRequested dfltSize])
    else (sizeRequested, ws) in
  if negb (sizeRequested =? dfltSize) then
    let k := if i =? 0 then setRecvBufferSize k sizeRequested
             else setSendBufferSize k sizeRequested in
    let applied := if i =? 0 then getRecvBufferSize k else getSendBufferSize k in
    let st := if i =? 0 then set_rcvSize st applied else set_sndSize st applied in
    let ws := if applied <? sizeRequested
              then ws ++ [WarnAdjusted direction sizeRequested applied]
              else ws in
    (st, k, ws)
  else (st, k, ws).

Definition setBufSize (props : Properties) (k : Kernel) (st : Transceiver)
  : Transceiver * Kernel * list Warning :=
  fold_left (fun acc i => setBufSize_iter props i acc) [0; 1] (st, k, []).

(** ** The constructors

    The platform primitives the constructors call (Network.cpp) either
    return or throw.  Which call throws is given by an oracle: the n-th
    entry says whether the n-th call of a primitive that can fail throws,
    and with what. *)
Inductive Prim :=
| P_getAddressForServer | P_createSocket | P_setBufSize | P_setBlock
| P_doConnect | P_setMcastInterface | P_setMcastTtl | P_setReuseAddress
| P_doBind | P_setMcastGroup.

Definition INVALID_SOCKET : Z := -1.

(** [c_fd] is the member [_fd]; [c_open] the descriptors the process holds
    open; [c_next] the next descriptor the OS hands out; [c_calls] the
    primitives called so far. *)
Record CState := mkC {
  c_fd : Z;
  c_open : list Z;
  c_next : Z;
  c_calls : list Prim
}.

Definition Oracle := list (option LocalException).

Definition CM (A : Type) : Type :=
  Oracle -> CState -> (LocalException + A) * Oracle * CState.

Definition cret {A : Type} (a : A) : CM A := fun o c => (inr a, o, c).
Definition cbind {A B : Type} (m : CM A) (f : A -> CM B) : CM B :=
  fun o c => match m o c with
             | (inl e, o', c') => (inl e, o', c')
             | (inr a, o', c') => f a o' c'
             end.
Notation "x <- m ;; f" := (cbind m (fun x => f)) (at level 61, m at next level, right associativity).
Notation "m ;; f" := (cbind m (fun _ => f)) (at level 61, right associativity).

Definition prim (p : Prim) : CM unit :=
  fun o c =>
    let c := mkC (c_fd c) (c_open c) (c_next c) (c_calls c ++ [p]) in
    match o with
    | Some e :: o' => (inl e, o', c)
    | None :: o' => (inr tt, o', c)
    | [] => (inr tt, [], c)
    end.

(** Modelled from the spec: the socket primitives of Network.cpp that take
    the descriptor [_fd] (setBlock, doConnect, doBind, setReuseAddress,
    setMcastInterface, setMcastTtl, setMcastGroup, and the buffer-size calls
    of setBufSize), which are not under src/.  The constructors' handlers
    only reset [_fd], while on a failure "the socket is released" (spec
    4.1, step 5): a primitive that fails closes the descriptor it was given
    before it throws. *)
Definition prim_fd (p : Prim) : CM unit :=
  fun o c =>
    let c := mkC (c_fd c) (c_open c) (c_next c) (c_calls c ++ [p]) in
    match o with
    | Some e :: o' => (inl e, o', mkC (c_fd c) (remove Z.eq_dec (c_fd c) (c_open c))
                                     (c_next c) (c_calls c))
    | None :: o' => (inr tt, o', c)
    | [] => (inr tt, [], c)
    end.

(** Modelled from the spec: [getAddressForServer("", port, ...)] (Network.cpp)
    gives the wildcard address on [port] (spec 4.2, step 3: "bind to the
    wildcard address on the same port"); no lookup is made and it does not
    fail. *)
Definition wildcardAddress : CM unit :=
  fun o c => (inr tt, o, mkC (c_fd c) (c_open c) (c_next c) (c_calls c ++ [P_getAddressForServer])).

(** [_fd = createSocket(true, family)]. *)
Definition createSocket : CM unit :=
  prim P_createSocket ;;
  (fun o c => (inr tt, o, mkC (c_next c) (c_next c :: c_open c) (c_next c + 1) (c_calls c))).

(** [try { body } catch(...) { _fd = INVALID_SOCKET; throw; }] *)
Definition catch_invalidate {A : Type} (body : CM A) : CM A :=
  fun o c => match body o c with
             | (inl e, o', c') => (inl e, o', mkC INVALID_SOCKET (c_open c') (c_next c') (c_calls c'))
             | r => r
             end.

Definition when (b : bool) (m : CM unit) : CM unit := if b then m else cret tt.

(** The resulting transceiver's buffer sizes come from [setBufSize]. *)
Definition initial_T (connect warn : bool) (peer : option SockAddr) : Transceiver :=
  mkT true connect false 0 0 warn peer [].

Definition with_bufsizes (props : Properties) (k : Kernel) (st : Transceiver) : Transceiver :=
  let '(st', _, _) := setBufSize props k st in st'.


(** Bind mode: UdpTransceiver(instance, host, port, mcastInterface, connect);
    [resolved] is the address [getAddressForServer] resolves [host:port] to,
    [win32] the platform branch. *)
Definition ctor_bind (props : Properties) (k : Kernel) (warn win32 : bool)
    (resolved : SockAddr) (connect : bool) : CM Transceiver :=
  catch_invalidate (
    prim P_getAddressForServer ;;
    createSocket ;;
    prim_fd P_setBufSize ;;
    prim_fd P_setBlock ;;
    (if sa_multicast resolved then
       prim_fd P_setReuseAddress ;;
       when win32 wildcardAddress ;;
       prim_fd P_doBind ;;
       prim_fd P_setMcastGroup
     else
       when (negb win32) (prim_fd P_setReuseAddress) ;;
       prim_fd P_doBind) ;;
    cret (with_bufsizes props k (initial_T connect warn None))).

(** ** Observations on a step or run *)

Definition step_st {P : Type} (s : Step P) : Transceiver :=
  match s with Next _ st _ | Done _ st _ => st end.
Definition step_buf {P : Type} (s : Step P) : Buffer :=
  match s with Next _ _ b | Done _ _ b => b end.
Definition step_outcome {P : Type} (s : Step P) : option Outcome :=
  match s with Next _ _ _ => None | Done o _ _ => Some o end.

(** The syscalls a call issued: [t_log] after it, minus [t_log] before. *)
Definition issued_after (before after : list Syscall) (p : Syscall -> bool) : Prop :=
  exists suf, after = before ++ suf /\ Forall (fun c => p c = false) suf.

(** An OS that never interrupts: every send would block, every wait
    reports readiness. *)
Definition resp_wouldBlock : OsResp := mkResp SOCKET_ERROR EWOULDBLOCK (mkAddr AF_INET false 0).
Definition resp_ready : OsResp := mkResp 1 EINTR (mkAddr AF_INET false 0).

Fixpoint spin (n : nat) : list Ev :=
  match n with
  | O => []
  | S n' => EvResp resp_wouldBlock :: EvResp resp_ready :: spin n'
  end.

Definition ev_interrupted (e : Ev) : bool :=
  match e with
  | EvResp r => (r_ret r =? SOCKET_ERROR) && interrupted (r_errno r)
  | EvShutdown => false
  end.

Definition addr0 : SockAddr := mkAddr AF_INET false 0.
(** A bounded wait that expired: poll/select returned 0. *)
Definition resp_expired : OsResp := mkResp 0 EINTR addr0.

Ltac split_ifs :=
  repeat (match goal with
          | |- context [if ?b then _ else _] => destruct b eqn:?
          end; simpl in * ).

(** A computation of the constructors' monad that, when it returns, returns [v]. *)
Definition returns_value {A : Type} (m : CM A) (v : A) : Prop :=
  forall o c b o' c', m o c = (inr b, o', c') -> b = v.

(** The invariant of a read call started while [_connect] is set. *)
Definition pending_inv (s : Step ReadPC) : Prop :=
  match s with
  | Done (Returned true) st' _ => t_connect st' = false
  | s => t_connect (step_st s) = true
  end.

(** The invariant of a reader parked in the wait after the flag is set. *)
Definition woken_inv (l : list Syscall) (s : Step ReadPC) : Prop :=
  t_shutdownReadWrite (step_st s) = true /\
  issued_after l (t_log (step_st s)) is_recv /\
  match s with
  | Next pc _ _ => pc = R_Poll
  | Done o _ _ => forall b, o <> Returned b
  end.

Definition no_poll_inv {P : Type} (l : list Syscall) (waiting : P -> bool) (s : Step P) : Prop :=
  issued_after l (t_log (step_st s)) is_poll /\
  match s with Next pc _ _ => waiting pc = false | Done _ _ _ => True end.

Definition is_W_Poll (pc : WritePC) : bool := match pc with W_Poll => true | _ => false end.
Definition is_R_Poll (pc : ReadPC) : bool := match pc with R_Poll => true | _ => false end.

(** The buffer of a read call after the ceiling check passed. *)
Definition ceiling_inv (ps : Z) (evs : list Ev) (s : Step ReadPC) : Prop :=
  match s with
  | Done (Returned true) _ b =>
      b_i b = b_size b /\
      exists r, In (EvResp r) evs /\ r_ret r <> SOCKET_ERROR /\ b_size b = r_ret r
  | Next (R_Connect ret _) _ b =>
      b = mkBuf ps 0 /\ exists r, In (EvResp r) evs /\ r_ret r <> SOCKET_ERROR /\ ret = r_ret r
  | s => step_buf s = mkBuf ps 0
  end.

Definition noProperties : Properties := fun _ => None.

(** ** checkSendSize(buf, messageSizeMax) *)
Inductive SizeCheck := SizeOk | ThrowsMemoryLimitException | ThrowsLocal (e : LocalException).

(** [buf.b.size() > messageSizeMax] compares two [size_t]s; the second test
    is the one of [write]. *)
Definition checkSendSize (st : Transceiver) (buf : Buffer) (messageSizeMax : Z) : SizeCheck :=
  if messageSizeMax <? b_size buf then ThrowsMemoryLimitException
  else
    let packetSize := Z.min maxPacketSize (t_sndSize st - udpOverhead) in
    if packetSize <? to_int (b_size buf) then ThrowsLocal DatagramLimitException
    else SizeOk.

(** What the caller of [write] observes of a step: the label reached or the
    outcome, and the buffer. *)
Definition write_view (s : Step WritePC) : (WritePC + Outcome) * Buffer :=
  match s with
  | Next pc _ b => (inl pc, b)
  | Done o _ b => (inr o, b)
  end.

Definition drop_shutdowns (evs : list Ev) : list Ev :=
  filter (fun e => match e with EvShutdown => false | EvResp _ => true end) evs.

Definition is_recvfrom_or_connect (c : Syscall) : bool :=
  match c with SysRecvFrom _ | SysConnect _ => true | _ => false end.
Definition is_recv_or_connect (c : Syscall) : bool :=
  match c with SysRecv _ | SysRecvFrom _ | SysConnect _ => true | _ => false end.
(** A wait other than [poll(POLLOUT, timeout)]. *)
Definition other_wait (timeout : Z) (c : Syscall) : bool :=
  match c with
  | SysPoll POLLOUT t => negb (t =? timeout)
  | SysPoll POLLIN _ => true
  | _ => false
  end.

(** The transceiver fields a call may not change. *)
Definition same_config (st st' : Transceiver) : Prop :=
  t_fd_valid st' = t_fd_valid st /\ t_connect st' = t_connect st /\
  t_rcvSize st' = t_rcvSize st /\ t_sndSize st' = t_sndSize st /\ t_warn st' = t_warn st.

(** The invariant of a write call. *)
Definition write_inv (st : Transceiver) (buf : Buffer) (timeout : Z) (s : Step WritePC) : Prop :=
  same_config st (step_st s) /\
  issued_after (t_log st) (t_log (step_st s)) is_recv_or_connect /\
  issued_after (t_log st) (t_log (step_st s)) (other_wait timeout) /\
  b_size (step_buf s) = b_size buf /\
  match s with
  | Done (Returned true) _ b => b_i b = b_size buf
  | _ => b_i (step_buf s) = b_i buf
  end.


(** The invariant of a read on a transceiver with [_connect] false. *)
Definition connected_inv (st : Transceiver) (s : Step ReadPC) : Prop :=
  t_connect (step_st s) = false /\
  issued_after (t_log st) (t_log (step_st s)) is_recvfrom_or_connect /\
  (t_peer (step_st s) = t_peer st \/ t_peer (step_st s) = None) /\
  match s with Next (R_Connect _ _) _ _ => False | _ => True end.



(** * Properties *)

Lemma run_invariant {P : Type} (d : bool)
    (step : P -> Transceiver -> Buffer -> OsResp -> Step P)
    (evs0 : list Ev) (I : Step P -> Prop) :
  (forall pc st buf r, In (EvResp r) evs0 -> I (Next pc st buf) -> I (step pc st buf r)) ->
  (forall pc st buf, I (Next pc st buf) -> I (Next pc (shutdownReadWrite d st) buf)) ->
  forall evs s, (forall e, In e evs -> In e evs0) -> I s -> I (run d step evs s).
Proof.
  intros Hstep Hshut evs.
  induction evs as [|e evs IH]; intros s Hin HI; destruct s as [pc st buf|o st buf];
    simpl; try assumption.
  destruct e as [r|].
  - apply IH; [intros e' He'; apply Hin; right; exact He'|].
    apply Hstep; [apply Hin; left; reflexivity | exact HI].
  - apply IH; [intros e' He'; apply Hin; right; exact He'|].
    apply Hshut; exact HI.
Qed.

Lemma run_invariant_simple {P : Type} (d : bool)
    (step : P -> Transceiver -> Buffer -> OsResp -> Step P) (I : Step P -> Prop) :
  (forall pc st buf r, I (Next pc st buf) -> I (step pc st buf r)) ->
  (forall pc st buf, I (Next pc st buf) -> I (Next pc (shutdownReadWrite d st) buf)) ->
  forall evs s, I s -> I (run d step evs s).
Proof.
  intros Hstep Hshut evs s HI.
  apply (run_invariant d step evs); auto.
Qed.

Lemma issued_after_refl (l : list Syscall) p : issued_after l l p.
Proof. exists []. split; [rewrite app_nil_r; reflexivity | constructor]. Qed.

Lemma issued_after_snoc (l l' : list Syscall) p c :
  issued_after l l' p -> p c = false -> issued_after l (l' ++ [c]) p.
Proof.
  intros [suf [-> Hf]] Hc. exists (suf ++ [c]). split.
  - rewrite app_assoc. reflexivity.
  - apply Forall_app. split; [exact Hf | constructor; [exact Hc | constructor]].
Qed.

Lemma shutdown_log d st :
  exists suf, t_log (shutdownReadWrite d st) = t_log st ++ suf /\
              Forall (fun c => is_recv c = false /\ is_poll c = false) suf.
Proof.
  unfold shutdownReadWrite; destruct d; simpl; [destruct (t_connect st); simpl|].
  - exists [SysShutdown; SysDecoySend].
    split; [rewrite <- ?app_assoc; reflexivity | repeat constructor].
  - exists [SysShutdown; SysDisconnect; SysDecoySend].
    split; [rewrite <- ?app_assoc; reflexivity | repeat constructor].
  - exists [SysShutdown]. split; [reflexivity|]. repeat constructor.
Qed.

Lemma issued_after_shutdown_recv l d st :
  issued_after l (t_log st) is_recv -> issued_after l (t_log (shutdownReadWrite d st)) is_recv.
Proof.
  intros [suf [Hl Hf]]. destruct (shutdown_log d st) as [suf2 [H2 Hf2]].
  exists (suf ++ suf2). rewrite H2, Hl, app_assoc. split; [reflexivity|].
  apply Forall_app. split; [exact Hf|]. eapply Forall_impl; [|exact Hf2]. intros c [? ?]; assumption.
Qed.

Lemma issued_after_shutdown_poll l d st :
  issued_after l (t_log st) is_poll -> issued_after l (t_log (shutdownReadWrite d st)) is_poll.
Proof.
  intros [suf [Hl Hf]]. destruct (shutdown_log d st) as [suf2 [H2 Hf2]].
  exists (suf ++ suf2). rewrite H2, Hl, app_assoc. split; [reflexivity|].
  apply Forall_app. split; [exact Hf|]. eapply Forall_impl; [|exact Hf2]. intros c [? ?]; assumption.
Qed.

Lemma returns_cret {A : Type} (v : A) : returns_value (cret v) v.
Proof. intros o c b o' c' H. unfold cret in H. inversion H. reflexivity. Qed.

Lemma returns_seq {A : Type} (m : CM unit) (f : CM A) v :
  returns_value f v -> returns_value (m ;; f) v.
Proof.
  intros Hf o c b o' c' H. unfold cbind in H.
  destruct (m o c) as [[[e|[]] o1] c1]; [discriminate|].
  exact (Hf _ _ _ _ _ H).
Qed.

Lemma returns_catch {A : Type} (m : CM A) v :
  returns_value m v -> returns_value (catch_invalidate m) v.
Proof.
  intros Hm o c b o' c' H. unfold catch_invalidate in H.
  destruct (m o c) as [[[e|a] o1] c1] eqn:E; [discriminate|].
  inversion H; subst. exact (Hm _ _ _ _ _ E).
Qed.

Lemma setBufSize_iter_flags props i st k ws :
  let '(st', _, _) := setBufSize_iter props i (st, k, ws) in
  t_connect st' = t_connect st /\ t_shutdownReadWrite st' = t_shutdownReadWrite st.
Proof.
  unfold setBufSize_iter, set_rcvSize, set_sndSize. simpl. split_ifs; auto.
Qed.

Lemma setBufSize_flags props k st :
  t_connect (fst (fst (setBufSize props k st))) = t_connect st /\
  t_shutdownReadWrite (fst (fst (setBufSize props k st))) = t_shutdownReadWrite st.
Proof.
  unfold setBufSize. cbn [fold_left].
  pose proof (setBufSize_iter_flags props 0 st k []) as H0.
  destruct (setBufSize_iter props 0 (st, k, [])) as [[st1 k1] ws1].
  pose proof (setBufSize_iter_flags props 1 st1 k1 ws1) as H1.
  destruct (setBufSize_iter props 1 (st1, k1, ws1)) as [[st2 k2] ws2].
  simpl. destruct H0, H1. split; congruence.
Qed.

Lemma read_step_connect_false timeout ps pc st buf r :
  t_connect st = false -> t_connect (step_st (read_step timeout ps pc st buf r)) = false.
Proof.
  intros H. destruct pc; unfold read_step, read_repeat, read_success; simpl;
    rewrite ?H; split_ifs; auto.
Qed.

Lemma write_step_connect timeout pc st buf r :
  t_connect (step_st (write_step timeout pc st buf r)) = t_connect st.
Proof.
  destruct pc; unfold write_step, write_repeatSelect; simpl; split_ifs; auto.
Qed.

Lemma shutdown_connect d st : t_connect (shutdownReadWrite d st) = t_connect st.
Proof.
  unfold shutdownReadWrite. destruct d; simpl; [destruct (t_connect st)|]; reflexivity.
Qed.

Lemma shutdown_flag d st : t_shutdownReadWrite (shutdownReadWrite d st) = true.
Proof.
  unfold shutdownReadWrite. destruct d; simpl; [destruct (t_connect st)|]; reflexivity.
Qed.

Lemma read_begin_st st buf : step_st (read_begin st buf) = st.
Proof. unfold read_begin, read_repeat. split_ifs; reflexivity. Qed.

Lemma to_int_small z : 0 <= z < 2 ^ 31 -> to_int z = z.
Proof.
  intros H. unfold to_int. rewrite Z.mod_small by lia.
  rewrite Z.geb_leb.
  replace (2 ^ 31 <=? z) with false by (symmetry; apply Z.leb_gt; lia).
  reflexivity.
Qed.

Lemma read_packetSize_max st : read_packetSize st <= maxPacketSize.
Proof. apply Z.le_min_l. Qed.

(** A buffer that passes the ceiling check, with a ceiling that is not
    negative, is resized to the ceiling and the call goes to [repeat]. *)
Lemma read_begin_passes st buf :
  to_int (b_size buf) <= read_packetSize st -> 0 <= read_packetSize st ->
  read_begin st buf = read_repeat st (mkBuf (read_packetSize st) 0).
Proof.
  intros Hc Hp. pose proof (read_packetSize_max st) as Hm. unfold maxPacketSize, udpOverhead in Hm.
  unfold read_begin.
  replace (read_packetSize st <? to_int (b_size buf)) with false
    by (symmetry; apply Z.ltb_ge; lia).
  unfold to_size_t. rewrite Z.mod_small by lia.
  replace (PTRDIFF_MAX <? read_packetSize st) with false
    by (symmetry; apply Z.ltb_ge; unfold PTRDIFF_MAX; lia).
  reflexivity.
Qed.

Lemma write_begin_st st buf : step_st (write_begin st buf) = st.
Proof. unfold write_begin. split_ifs; reflexivity. Qed.

Lemma read_step_pending timeout ps pc st buf r :
  t_connect st = true -> pending_inv (read_step timeout ps pc st buf r).
Proof.
  intros H. destruct pc; unfold read_step, read_repeat, read_success, pending_inv;
    simpl; rewrite ?H; split_ifs; auto.
Qed.

(** C5: [_connect] is set by the bind-mode constructor from its [connect]
    argument; while it is set, a read call that does not return data leaves it
    set; the first receive that succeeds makes [read] connect the socket to
    the sender's address and clear it; and no operation sets it again. *)
Theorem pendingConnect_one_way :
  (forall props k warn win32 resolved o c t o' c',
     ctor_bind props k warn win32 resolved true o c = (inr t, o', c') ->
     t_connect t = true) /\
  (forall d st buf timeout evs, t_connect st = true ->
     pending_inv (read d st buf timeout evs)) /\
  (forall timeout ps st buf r r',
     t_connect st = true -> r_ret r <> SOCKET_ERROR -> r_ret r' <> SOCKET_ERROR ->
     read_step timeout ps R_Recv st buf r
       = Next (R_Connect (r_ret r) (r_peer r)) (log_call st (SysRecvFrom ps)) buf /\
     exists st' buf',
       read_step timeout ps (R_Connect (r_ret r) (r_peer r)) (log_call st (SysRecvFrom ps)) buf r'
         = Done (Returned true) st' buf' /\
       t_connect st' = false /\ t_peer st' = Some (r_peer r) /\
       t_log st' = t_log st ++ [SysRecvFrom ps; SysConnect (r_peer r)]) /\
  (forall d st, t_connect st = false ->
     (forall buf timeout evs, t_connect (step_st (read d st buf timeout evs)) = false) /\
     (forall buf timeout evs, t_connect (step_st (write d st buf timeout evs)) = false) /\
     t_connect (shutdownReadWrite d st) = false /\
     t_connect (close st) = false /\
     (forall props k, t_connect (fst (fst (setBufSize props k st))) = false)).
Proof.
  split; [|split; [|split]].
  - intros props k warn win32 resolved o c t o' c' H.
    assert (Hr : returns_value (ctor_bind props k warn win32 resolved true)
                   (with_bufsizes props k (initial_T true warn None))).
    { unfold ctor_bind. apply returns_catch. repeat apply returns_seq. apply returns_cret. }
    rewrite (Hr _ _ _ _ _ H). unfold with_bufsizes.
    pose proof (proj1 (setBufSize_flags props k (initial_T true warn None))) as Hf.
    destruct (setBufSize props k (initial_T true warn None)) as [[st' k'] ws].
    simpl in Hf. exact Hf.
  - intros d st buf timeout evs H. unfold read.
    apply run_invariant_simple.
    + intros pc st0 buf0 r Hi. apply read_step_pending. exact Hi.
    + intros pc st0 buf0 Hi. simpl in *. rewrite shutdown_connect. exact Hi.
    + unfold read_begin, read_repeat, pending_inv. split_ifs; exact H.
  - intros timeout ps st buf r r' H Hr Hr'. simpl. rewrite H.
    apply Z.eqb_neq in Hr. apply Z.eqb_neq in Hr'. unfold SOCKET_ERROR in *. rewrite Hr. split; [reflexivity|].
    rewrite Hr'. unfold read_success. eexists; eexists. split; [reflexivity|].
    simpl. split; [reflexivity | split; [reflexivity|]]. rewrite <- app_assoc. reflexivity.
  - intros d st H. split; [|split; [|split; [|split]]].
    + intros buf timeout evs. unfold read.
      apply (run_invariant_simple d _ (fun s => t_connect (step_st s) = false)).
      * intros pc st0 buf0 r Hi. apply read_step_connect_false. exact Hi.
      * intros pc st0 buf0 Hi. simpl in *. rewrite shutdown_connect. exact Hi.
      * rewrite read_begin_st. exact H.
    + intros buf timeout evs. unfold write.
      apply (run_invariant_simple d _ (fun s => t_connect (step_st s) = false)).
      * intros pc st0 buf0 r Hi. rewrite write_step_connect. exact Hi.
      * intros pc st0 buf0 Hi. simpl in *. rewrite shutdown_connect. exact Hi.
      * rewrite write_begin_st. exact H.
    + rewrite shutdown_connect. exact H.
    + exact H.
    + intros props k. rewrite (proj1 (setBufSize_flags props k st)). exact H.
Qed.

Lemma read_step_flag timeout ps pc st buf r :
  t_shutdownReadWrite (step_st (read_step timeout ps pc st buf r)) = t_shutdownReadWrite st.
Proof.
  destruct pc; unfold read_step, read_repeat, read_success; simpl; split_ifs; auto.
Qed.

Lemma write_step_flag timeout pc st buf r :
  t_shutdownReadWrite (step_st (write_step timeout pc st buf r)) = t_shutdownReadWrite st.
Proof.
  destruct pc; unfold write_step, write_repeatSelect; simpl; split_ifs; auto.
Qed.

Lemma run_flag_set {P : Type} d (step : P -> Transceiver -> Buffer -> OsResp -> Step P) evs s :
  (forall pc st buf r, t_shutdownReadWrite (step_st (step pc st buf r)) = t_shutdownReadWrite st) ->
  t_shutdownReadWrite (step_st s) = true ->
  t_shutdownReadWrite (step_st (run d step evs s)) = true.
Proof.
  intros Hs H.
  apply (run_invariant_simple d step (fun s => t_shutdownReadWrite (step_st s) = true)); auto.
  - intros pc st buf r Hi. rewrite Hs. exact Hi.
  - intros pc st buf Hi. apply shutdown_flag.
Qed.

(** C6 (as corrected): once the flag is set, a read call whose buffer is
    within the size ceiling raises connection-lost at once, with no syscall,
    while a buffer larger than the ceiling (and shorter than 2^31 bytes)
    raises the size-limit error first, also with no syscall; a reader parked in the wait never returns data and issues no receive,
    and raises connection-lost as soon as the wait reports readiness; no
    operation clears the flag. *)
Theorem read_after_shutdown :
  (forall d st buf timeout evs,
     t_shutdownReadWrite st = true ->
     0 <= b_size buf <= read_packetSize st ->
     read d st buf timeout evs
       = Done (Raised (ThrowValue ConnectionLostException)) st (mkBuf (read_packetSize st) 0)) /\
  (forall d st buf timeout evs,
     0 <= b_size buf < 2 ^ 31 -> read_packetSize st < b_size buf ->
     read d st buf timeout evs = Done (Raised (ThrowValue DatagramLimitException)) st buf) /\
  (forall d timeout ps st buf evs,
     t_shutdownReadWrite st = true ->
     (forall b, step_outcome (run d (read_step timeout ps) evs (Next R_Poll st buf)) <> Some (Returned b)) /\
     issued_after (t_log st) (t_log (step_st (run d (read_step timeout ps) evs (Next R_Poll st buf)))) is_recv) /\
  (forall timeout ps st buf r,
     t_shutdownReadWrite st = true -> r_ret r <> SOCKET_ERROR -> r_ret r <> 0 ->
     read_step timeout ps R_Poll st buf r
       = Done (Raised (ThrowValue ConnectionLostException)) (log_call st (SysPoll POLLIN (-1))) buf) /\
  (forall d st, t_shutdownReadWrite st = true ->
     (forall buf timeout evs, t_shutdownReadWrite (step_st (read d st buf timeout evs)) = true) /\
     (forall buf timeout evs, t_shutdownReadWrite (step_st (write d st buf timeout evs)) = true) /\
     t_shutdownReadWrite (shutdownReadWrite d st) = true /\
     t_shutdownReadWrite (close st) = true /\
     (forall props k, t_shutdownReadWrite (fst (fst (setBufSize props k st))) = true)).
Proof.
  split; [|split; [|split; [|split]]].
  - intros d st buf timeout evs H Hc.
    pose proof (read_packetSize_max st) as Hm. unfold maxPacketSize, udpOverhead in Hm.
    unfold read. rewrite read_begin_passes by (try (rewrite to_int_small by lia); lia).
    unfold read_repeat. rewrite H. destruct evs; reflexivity.
  - intros d st buf timeout evs Hs Hp. unfold read, read_begin.
    rewrite (to_int_small _ Hs).
    replace (read_packetSize st <? b_size buf) with true by (symmetry; apply Z.ltb_lt; lia).
    destruct evs; reflexivity.
  - intros d timeout ps st buf evs H.
    assert (Hi : woken_inv (t_log st) (run d (read_step timeout ps) evs (Next R_Poll st buf))).
    { apply run_invariant_simple.
      - intros pc st0 buf0 r [Hf [Hl Hpc]]. simpl in Hpc. subst pc.
        unfold read_step, read_repeat, woken_inv. simpl.
        assert (Hl' : issued_after (t_log st) (t_log st0 ++ [SysPoll POLLIN (-1)]) is_recv)
          by (apply issued_after_snoc; [exact Hl | reflexivity]).
        split_ifs; rewrite ?Hf in *; try discriminate;
          repeat split; auto; intros b0 Hb0; discriminate.
      - intros pc st0 buf0 [Hf [Hl Hpc]]. unfold woken_inv. simpl in *.
        split; [apply shutdown_flag | split; [apply issued_after_shutdown_recv; exact Hl | exact Hpc]].
      - unfold woken_inv. simpl. split; [exact H | split; [apply issued_after_refl | reflexivity]]. }
    destruct Hi as [_ [Hl Ho]]. split; [|exact Hl].
    intros b. destruct (run d (read_step timeout ps) evs (Next R_Poll st buf)); simpl in *;
      [discriminate | intros E; inversion E; subst; exact (Ho b eq_refl)].
  - intros timeout ps st buf r H Hr Hr0. simpl.
    apply Z.eqb_neq in Hr. apply Z.eqb_neq in Hr0. unfold SOCKET_ERROR in *.
    rewrite Hr, Hr0. unfold read_repeat. simpl. rewrite H. reflexivity.
  - intros d st H. split; [|split; [|split; [|split]]].
    + intros buf timeout evs. unfold read. apply run_flag_set.
      * apply read_step_flag.
      * rewrite read_begin_st. exact H.
    + intros buf timeout evs. unfold write. apply run_flag_set.
      * apply write_step_flag.
      * rewrite write_begin_st. exact H.
    + apply shutdown_flag.
    + exact H.
    + intros props k. rewrite (proj2 (setBufSize_flags props k st)). exact H.
Qed.

(** C6 (counterexample): after shutdownReadWrite, a read call with a buffer
    larger than the size ceiling raises the size-limit error, not
    connection-lost. *)
Lemma read_after_shutdown_oversize :
  let st := mkT true false true 65536 65536 false None [] in
  t_shutdownReadWrite (shutdownReadWrite false st) = true /\
  step_outcome (read false (shutdownReadWrite false st) (mkBuf 70000 0) (-1) [])
    = Some (Raised (ThrowValue DatagramLimitException)).
Proof. split; reflexivity. Qed.

(** C8: with timeout 0, a send or receive that would block makes the call
    return "not ready" (false) at once; such a call never issues a wait. *)
Theorem zero_timeout_not_ready :
  (forall st buf r, r_ret r = SOCKET_ERROR -> r_errno r = EWOULDBLOCK ->
     write_step 0 W_Send st buf r
       = Done (Returned false) (log_call st (SysSend (b_size buf))) buf) /\
  (forall ps st buf r, r_ret r = SOCKET_ERROR -> r_errno r = EWOULDBLOCK ->
     read_step 0 ps R_Recv st buf r
       = Done (Returned false)
              (log_call st (if t_connect st then SysRecvFrom ps else SysRecv ps)) buf) /\
  (forall d st buf evs, issued_after (t_log st) (t_log (step_st (write d st buf 0 evs))) is_poll) /\
  (forall d st buf evs, issued_after (t_log st) (t_log (step_st (read d st buf 0 evs))) is_poll).
Proof.
  split; [|split; [|split]].
  - intros st buf r Hr He. simpl. rewrite Hr, He. reflexivity.
  - intros ps st buf r Hr He. simpl. rewrite Hr, He. reflexivity.
  - intros d st buf evs.
    enough (H : no_poll_inv (t_log st) is_W_Poll (write d st buf 0 evs)) by apply H.
    unfold write. apply run_invariant_simple.
    + intros pc st0 buf0 r [Hl Hpc]. destruct pc; [|discriminate].
      unfold write_step, write_repeatSelect, no_poll_inv. simpl.
      assert (Hl' : issued_after (t_log st) (t_log st0 ++ [SysSend (b_size buf0)]) is_poll)
        by (apply issued_after_snoc; [exact Hl | reflexivity]).
      split_ifs; auto.
    + intros pc st0 buf0 [Hl Hpc]. split; [apply issued_after_shutdown_poll; exact Hl | exact Hpc].
    + unfold write_begin, no_poll_inv. split_ifs; (split; [apply issued_after_refl | auto]).
  - intros d st buf evs.
    enough (H : no_poll_inv (t_log st) is_R_Poll (read d st buf 0 evs)) by apply H.
    unfold read. apply run_invariant_simple.
    + intros pc st0 buf0 r [Hl Hpc]. destruct pc as [| ret peer |]; [| |discriminate];
        unfold read_step, read_repeat, read_success, no_poll_inv; simpl.
      * assert (Hl' : issued_after (t_log st)
                  (t_log st0 ++ [if t_connect st0 then SysRecvFrom (read_packetSize st)
                                 else SysRecv (read_packetSize st)]) is_poll)
          by (apply issued_after_snoc; [exact Hl | destruct (t_connect st0); reflexivity]).
        split_ifs; auto.
      * assert (Hl' : issued_after (t_log st) (t_log st0 ++ [SysConnect peer]) is_poll)
          by (apply issued_after_snoc; [exact Hl | reflexivity]).
        split_ifs; auto.
    + intros pc st0 buf0 [Hl Hpc]. split; [apply issued_after_shutdown_poll; exact Hl | exact Hpc].
    + unfold read_begin, read_repeat, no_poll_inv. split_ifs; (split; [apply issued_after_refl | auto]).
Qed.

(** With a wait that always reports readiness and a send that always
    would block, write cycles between the two labels. *)
Lemma write_spin d timeout st buf n :
  timeout <> 0 ->
  (exists st', run d (write_step timeout) (spin n) (Next W_Send st buf) = Next W_Send st' buf) /\
  (exists st', run d (write_step timeout) (spin n ++ [EvResp resp_wouldBlock]) (Next W_Send st buf)
               = Next W_Poll st' buf).
Proof.
  intros Ht. apply Z.eqb_neq in Ht.
  revert st. induction n as [|n IH]; intros st.
  - simpl. unfold write_repeatSelect. rewrite Ht. split; eexists; reflexivity.
  - simpl. unfold write_repeatSelect. rewrite Ht. simpl. apply IH.
Qed.

Lemma spin_not_interrupted n : Forall (fun e => ev_interrupted e = false) (spin n).
Proof. induction n; simpl; repeat constructor; assumption. Qed.

(** C9 (as corrected): an interrupted send, receive or wait is retried: the
    step goes back to the same label, never to an error or "not ready";
    yet a call that is never interrupted need not terminate. *)
Theorem interrupted_retried :
  (forall timeout st buf r, r_ret r = SOCKET_ERROR -> r_errno r = EINTR ->
     write_step timeout W_Send st buf r = Next W_Send (log_call st (SysSend (b_size buf))) buf) /\
  (forall timeout st buf r, timeout <> 0 -> r_ret r = SOCKET_ERROR -> r_errno r = EINTR ->
     write_step timeout W_Poll st buf r = Next W_Poll (log_call st (SysPoll POLLOUT timeout)) buf) /\
  (forall timeout ps st buf r, r_ret r = SOCKET_ERROR -> r_errno r = EINTR ->
     read_step timeout ps R_Recv st buf r
       = read_repeat (log_call st (if t_connect st then SysRecvFrom ps else SysRecv ps)) buf) /\
  (forall timeout ps st buf r, r_ret r = SOCKET_ERROR -> r_errno r = EINTR ->
     read_step timeout ps R_Poll st buf r = Next R_Poll (log_call st (SysPoll POLLIN (-1))) buf) /\
  (forall d st buf n, to_int (b_size buf) <= write_packetSize st ->
     Forall (fun e => ev_interrupted e = false) (spin n) /\
     step_outcome (write d st buf 1000 (spin n)) = None /\
     step_outcome (write d st buf 1000 (spin n ++ [EvResp resp_wouldBlock])) = None).
Proof.
  split; [|split; [|split; [|split]]].
  - intros timeout st buf r Hr He. simpl. rewrite Hr, He. reflexivity.
  - intros timeout st buf r Ht Hr He. simpl. rewrite Hr, He. simpl.
    unfold write_repeatSelect. apply Z.eqb_neq in Ht. rewrite Ht. reflexivity.
  - intros timeout ps st buf r Hr He. simpl. rewrite Hr, He. reflexivity.
  - intros timeout ps st buf r Hr He. simpl. rewrite Hr, He. reflexivity.
  - intros d st buf n Hc. split; [apply spin_not_interrupted|].
    unfold write, write_begin.
    replace (write_packetSize st <? to_int (b_size buf)) with false
      by (symmetry; apply Z.ltb_ge; lia).
    destruct (write_spin d 1000 st buf n) as [[st1 E1] [st2 E2]]; [discriminate|].
    rewrite E1, E2. split; reflexivity.
Qed.

(** C9 (counterexample): with no interruption at all, a write whose wait
    keeps reporting readiness while its send keeps reporting would-block
    never finishes: no prefix of that OS behaviour ends the call. *)
Lemma write_loops_without_interrupts :
  let st := mkT true false false 65536 65536 false None [] in
  (forall n, Forall (fun e => ev_interrupted e = false) (spin n ++ [EvResp resp_wouldBlock])) /\
  (forall n, step_outcome (write false st (mkBuf 10 0) 1000 (spin n)) = None /\
             step_outcome (write false st (mkBuf 10 0) 1000 (spin n ++ [EvResp resp_wouldBlock])) = None).
Proof.
  split; intros n.
  - apply Forall_app. split; [apply spin_not_interrupted | repeat constructor].
  - unfold write, write_begin. simpl.
    destruct (write_spin false 1000 (mkT true false false 65536 65536 false None []) (mkBuf 10 0) n)
      as [[st1 E1] [st2 E2]]; [discriminate|].
    rewrite E1, E2. split; reflexivity.
Qed.

(** C10 (code bug): once the ceiling check passes and the ceiling
    min(65507, rcvSize - 28) is not negative, read resizes the caller's
    buffer to it before the first receive; every outcome other than success
    (connection-lost, timeout, truncation, transport error, connect failure,
    "not ready", or still waiting) leaves it at that size; success shrinks
    it to the length of a datagram the OS returned.  The check compares with
    [static_cast<int>(buf.b.size())] (the defect of C4): with [_rcvSize] 16,
    the ceiling is -12, a buffer of 2^31 bytes is cast to INT_MIN and passes,
    and [resize(size_t(-12))] throws [std::bad_alloc]: the buffer is never
    set to the ceiling. *)
Theorem read_buffer_at_ceiling :
  (forall d st buf timeout evs,
     to_int (b_size buf) <= read_packetSize st -> 0 <= read_packetSize st ->
     ceiling_inv (read_packetSize st) evs (read d st buf timeout evs)) /\
  (let st := mkT true false false 16 16 false None [] in
   read_packetSize st = -12 /\ to_int (2 ^ 31) <= read_packetSize st /\
   read false st (mkBuf (2 ^ 31) 0) 1000 [EvResp resp_ready]
     = Done (Raised ThrowBadAlloc) st (mkBuf (2 ^ 31) 0)).
Proof.
  split; [| vm_compute; repeat split; try reflexivity; discriminate].
  intros d st buf timeout evs Hc Hp. unfold read.
  apply (run_invariant d _ evs); [| | intros e He; exact He |].
  - intros pc st0 buf0 r Hin Hi. destruct pc as [| ret peer |];
      simpl in Hi; [| destruct Hi as [Hb [r0 [Hin0 [Hr0 Hret]]]] |];
      unfold read_step, read_repeat, read_success, ceiling_inv; simpl; subst.
    + split_ifs; auto.
      * split; [reflexivity|]. exists r. repeat split; auto. apply Z.eqb_neq. assumption.
      * split; [reflexivity|]. exists r. repeat split; auto. apply Z.eqb_neq. assumption.
    + split_ifs; auto. split; [reflexivity|]. exists r0. repeat split; auto.
    + split_ifs; auto.
  - intros pc st0 buf0 Hi. destruct pc; exact Hi.
  - rewrite read_begin_passes by assumption.
    unfold read_repeat, ceiling_inv. split_ifs; reflexivity.
Qed.

(** C1 (code bug): the wait of [read] is [poll(fdSet, 1, -1)] whatever the
    [timeout] argument; a read with timeout 1000 on a socket with no data
    waits with an infinite timeout. *)
Theorem read_wait_ignores_timeout :
  (forall timeout ps st buf r,
     t_log (step_st (read_step timeout ps R_Poll st buf r)) = t_log st ++ [SysPoll POLLIN (-1)]) /\
  (let st := mkT true false false 65536 65536 false None [] in
   read false st (mkBuf 0 0) 1000 [EvResp resp_wouldBlock]
     = Next R_Poll (mkT true false false 65536 65536 false None [SysRecv 65507]) (mkBuf 65507 0) /\
   t_log (step_st (read false st (mkBuf 0 0) 1000 [EvResp resp_wouldBlock; EvResp resp_ready]))
     = [SysRecv 65507; SysPoll POLLIN (-1)]).
Proof.
  split.
  - intros timeout ps st buf r. unfold read_step, read_repeat. simpl. split_ifs; reflexivity.
  - split; reflexivity.
Qed.

(** C2 (code bug): when the wait of [write] expires, [write] executes
    [throw new Ice::TimeoutException(...)]: the thrown object is a pointer,
    which neither [catch(const Ice::TimeoutException&)] nor
    [catch(const Ice::LocalException&)] catches; the expiry of the wait of
    [read] throws the exception object itself. *)
Theorem write_timeout_thrown_as_pointer :
  (forall st buf timeout,
     step_outcome (write_step timeout W_Poll st buf resp_expired)
       = Some (Raised (ThrowPointer TimeoutException))) /\
  (let st := mkT true false false 65536 65536 false None [] in
   write false st (mkBuf 10 0) 1000 [EvResp resp_wouldBlock; EvResp resp_expired]
     = Done (Raised (ThrowPointer TimeoutException))
            (mkT true false false 65536 65536 false None [SysSend 10; SysPoll POLLOUT 1000])
            (mkBuf 10 0)) /\
  caught_as_TimeoutException (ThrowPointer TimeoutException) = false /\
  caught_as_LocalException (ThrowPointer TimeoutException) = false /\
  (forall st buf timeout ps,
     step_outcome (read_step timeout ps R_Poll st buf resp_expired)
       = Some (Raised (ThrowValue TimeoutException))) /\
  caught_as_TimeoutException (ThrowValue TimeoutException) = true.
Proof.
  repeat split; intros; reflexivity.
Qed.



(** C4 (code bug): the size check of [write] compares with
    [static_cast<int>(buf.b.size())].  For payloads shorter than 2^31 bytes
    an oversize payload raises [DatagramLimitException] with no syscall; a
    payload of 2^31 bytes is cast to INT_MIN, passes the check and is sent. *)
Theorem write_size_check :
  (forall d st buf timeout evs,
     0 <= b_size buf < 2 ^ 31 -> write_packetSize st < b_size buf ->
     write d st buf timeout evs = Done (Raised (ThrowValue DatagramLimitException)) st buf) /\
  (let st := mkT true false false 65536 65536 false None [] in
   write_begin st (mkBuf (2 ^ 31) 0) = Next W_Send st (mkBuf (2 ^ 31) 0) /\
   write false st (mkBuf (2 ^ 31) 0) 1000 [EvResp (mkResp SOCKET_ERROR EMSGSIZE addr0)]
     = Done (Raised (ThrowValue (SocketException 90)))
            (mkT true false false 65536 65536 false None [SysSend (2 ^ 31)]) (mkBuf (2 ^ 31) 0)).
Proof.
  split.
  - intros d st buf timeout evs Hs Hp. unfold write, write_begin.
    rewrite (to_int_small _ Hs).
    replace (write_packetSize st <? b_size buf) with true by (symmetry; apply Z.ltb_lt; lia).
    destruct evs; reflexivity.
  - split; reflexivity.
Qed.

(** C7 (as corrected): per direction, a configured value below 28 is
    replaced, with a warning, by the OS default, which is stored; an absent
    value or one equal to the default stores the default; any other value is
    requested from the OS and the size read back is stored, with a warning
    exactly when it is smaller than requested.  The stored size is thus the
    OS default or the size the OS applied; it is not compared with 28. *)
Theorem setBufSize_negotiation :
  forall props k st,
  let '(st', _, ws) := setBufSize props k st in
  (forall v, props "Ice.UDP.RcvSize"%string = Some v -> v < udpOverhead ->
     t_rcvSize st' = k_rcv k /\ In (WarnInvalid "Ice.UDP.RcvSize" v (k_rcv k)) ws) /\
  ((props "Ice.UDP.RcvSize"%string = None \/ props "Ice.UDP.RcvSize"%string = Some (k_rcv k)) ->
     t_rcvSize st' = k_rcv k) /\
  (forall v, props "Ice.UDP.RcvSize"%string = Some v -> udpOverhead <= v -> v <> k_rcv k ->
     t_rcvSize st' = k_adjust_rcv k v /\
     (In (WarnAdjusted "receive" v (k_adjust_rcv k v)) ws <-> k_adjust_rcv k v < v)) /\
  (forall v, props "Ice.UDP.SndSize"%string = Some v -> v < udpOverhead ->
     t_sndSize st' = k_snd k /\ In (WarnInvalid "Ice.UDP.SndSize" v (k_snd k)) ws) /\
  ((props "Ice.UDP.SndSize"%string = None \/ props "Ice.UDP.SndSize"%string = Some (k_snd k)) ->
     t_sndSize st' = k_snd k) /\
  (forall v, props "Ice.UDP.SndSize"%string = Some v -> udpOverhead <= v -> v <> k_snd k ->
     t_sndSize st' = k_adjust_snd k v /\
     (In (WarnAdjusted "send" v (k_adjust_snd k v)) ws <-> k_adjust_snd k v < v)).
Proof.
  intros props k st.
  unfold setBufSize. cbn [fold_left].
  unfold setBufSize_iter, getPropertyAsIntWithDefault, getRecvBufferSize, getSendBufferSize,
    setRecvBufferSize, setSendBufferSize. simpl.
  destruct (props "Ice.UDP.RcvSize"%string) as [vr|] eqn:Hr;
  destruct (props "Ice.UDP.SndSize"%string) as [vs|] eqn:Hs;
  split_ifs;
  repeat split; intros;
  repeat match goal with
         | H : Some _ = Some _ |- _ => inversion H; clear H; subst
         | H : None = Some _ |- _ => discriminate H
         | H : Some _ = None |- _ => discriminate H
         | H : _ \/ _ |- _ => destruct H
         end;
  rewrite ?Z.ltb_lt, ?Z.ltb_ge, ?Z.eqb_eq, ?Z.eqb_neq in *;
  simpl in *; try lia;
  repeat match goal with
         | H : _ \/ _ |- _ => destruct H
         | H : WarnInvalid _ _ _ = WarnAdjusted _ _ _ |- _ => discriminate H
         | H : WarnAdjusted _ _ _ = WarnAdjusted _ _ _ |- _ => inversion H; clear H
         | H : False |- _ => contradiction
         end;
  auto 10; try lia.
Qed.

(** C7 (counterexample): the stored size can be below 28 bytes: an OS
    default of 16 bytes with no configured value is stored (with the
    warning that the value 16 is "adjusted to" 16), and a
    valid request of 100 bytes that the OS applies as 20 stores 20. *)
Lemma setBufSize_small_sizes :
  (let '(st', _, ws) := setBufSize noProperties (mkKernel 16 16 (fun n => n) (fun n => n))
                                   (initial_T false false None) in
   t_rcvSize st' = 16 /\ t_sndSize st' = 16 /\ t_rcvSize st' < udpOverhead /\
   ws = [WarnInvalid "Ice.UDP.RcvSize" 16 16; WarnInvalid "Ice.UDP.SndSize" 16 16]) /\
  (let props : Properties :=
     fun p => if String.eqb p "Ice.UDP.RcvSize" then Some 100 else None in
   let '(st', _, ws) := setBufSize props (mkKernel 65536 65536 (fun _ => 20) (fun n => n))
                                   (initial_T false false None) in
   t_rcvSize st' = 20 /\ t_rcvSize st' < udpOverhead /\
   ws = [WarnAdjusted "receive" 100 20]).
Proof. split; vm_compute; repeat split; reflexivity. Qed.

(** * Further properties of the transceiver *)

Lemma run_done {P : Type} d (step : P -> Transceiver -> Buffer -> OsResp -> Step P) evs o st buf :
  run d step evs (Done o st buf) = Done o st buf.
Proof. destruct evs; reflexivity. Qed.

Lemma issued_after_shutdown l d st p :
  p SysShutdown = false -> p SysDisconnect = false -> p SysDecoySend = false ->
  issued_after l (t_log st) p -> issued_after l (t_log (shutdownReadWrite d st)) p.
Proof.
  intros H1 H2 H3 Hl. unfold shutdownReadWrite.
  destruct d; simpl; [destruct (t_connect st); simpl|];
    repeat apply issued_after_snoc; auto.
Qed.

Lemma shutdown_same_config d st : same_config st (shutdownReadWrite d st).
Proof.
  unfold shutdownReadWrite, same_config. destruct d; simpl; [destruct (t_connect st)|];
    repeat split.
Qed.

Lemma write_step_no_datagram_limit timeout pc st buf r :
  step_outcome (write_step timeout pc st buf r) <> Some (Raised (ThrowValue DatagramLimitException)).
Proof.
  destruct pc; unfold write_step, write_repeatSelect; simpl; split_ifs; discriminate.
Qed.

(** X1: checkSendSize accepts a buffer exactly when it is within
    [messageSizeMax] and the size check of [write] lets it through; a write
    of a buffer it accepted never raises [DatagramLimitException]. *)
Theorem checkSendSize_matches_write :
  forall st buf messageSizeMax,
    (checkSendSize st buf messageSizeMax = SizeOk <->
       b_size buf <= messageSizeMax /\ write_begin st buf = Next W_Send st buf) /\
    (checkSendSize st buf messageSizeMax = SizeOk ->
       forall d timeout evs,
         step_outcome (write d st buf timeout evs)
           <> Some (Raised (ThrowValue DatagramLimitException))).
Proof.
  intros st buf m. unfold checkSendSize, write_begin, write_packetSize.
  destruct (m <? b_size buf) eqn:Hm;
  destruct (Z.min maxPacketSize (t_sndSize st - udpOverhead) <? to_int (b_size buf)) eqn:Hp;
  rewrite ?Z.ltb_lt, ?Z.ltb_ge in Hm.
  - split; [split; [discriminate | intros [? ?]; lia] | discriminate].
  - split; [split; [discriminate | intros [? ?]; lia] | discriminate].
  - split; [split; [discriminate | intros [_ H]; discriminate H] | discriminate].
  - split; [split; [intros _; split; [lia | reflexivity] | reflexivity] |].
    intros _ d timeout evs. unfold write, write_begin, write_packetSize. rewrite Hp.
    apply (run_invariant_simple d _
             (fun s => step_outcome s <> Some (Raised (ThrowValue DatagramLimitException)))).
    + intros pc st0 buf0 r _. apply write_step_no_datagram_limit.
    + intros pc st0 buf0 _. discriminate.
    + discriminate.
Qed.

Lemma same_config_log st st0 c : same_config st st0 -> same_config st (log_call st0 c).
Proof. unfold same_config. simpl. tauto. Qed.

Lemma same_config_trans st st0 st1 : same_config st st0 -> same_config st0 st1 -> same_config st st1.
Proof. unfold same_config. intuition congruence. Qed.

Lemma write_run_inv d st buf timeout evs : write_inv st buf timeout (write d st buf timeout evs).
Proof.
  unfold write. apply run_invariant_simple.
  - intros pc st0 buf0 r [Hc [H1 [H2 [Hs Hi]]]]. simpl in Hs, Hi.
    destruct pc; unfold write_step, write_repeatSelect, write_inv; simpl.
    + assert (H1' := issued_after_snoc _ _ is_recv_or_connect (SysSend (b_size buf0)) H1 eq_refl).
      assert (H2' := issued_after_snoc _ _ (other_wait timeout) (SysSend (b_size buf0)) H2 eq_refl).
      assert (Hc' := same_config_log _ _ (SysSend (b_size buf0)) Hc).
      split_ifs; repeat split; try apply Hc'; auto; congruence.
    + assert (H1' := issued_after_snoc _ _ is_recv_or_connect (SysPoll POLLOUT timeout) H1 eq_refl).
      assert (H2' : issued_after (t_log st) (t_log st0 ++ [SysPoll POLLOUT timeout]) (other_wait timeout))
        by (apply issued_after_snoc; [exact H2 | simpl; rewrite Z.eqb_refl; reflexivity]).
      assert (Hc' := same_config_log _ _ (SysPoll POLLOUT timeout) Hc).
      split_ifs; repeat split; try apply Hc'; auto.
  - intros pc st0 buf0 [Hc [H1 [H2 [Hs Hi]]]]. unfold write_inv. simpl in *.
    split; [eapply same_config_trans; [exact Hc | apply shutdown_same_config]|].
    split; [apply issued_after_shutdown; auto|].
    split; [apply issued_after_shutdown; auto|]. auto.
  - unfold write_begin, write_inv. split_ifs;
      (split; [unfold same_config; tauto | split; [apply issued_after_refl | split; [apply issued_after_refl | auto]]]).
Qed.

(** X2: write never changes the size of the caller's buffer nor the
    transceiver's handle, connect flag, buffer sizes or warning flag; on
    success it moves the cursor to the end of the buffer, otherwise it
    leaves the cursor where it was. *)
Theorem write_frame :
  forall d st buf timeout evs,
    same_config st (step_st (write d st buf timeout evs)) /\
    b_size (step_buf (write d st buf timeout evs)) = b_size buf /\
    match step_outcome (write d st buf timeout evs) with
    | Some (Returned true) => b_i (step_buf (write d st buf timeout evs)) = b_size buf
    | _ => b_i (step_buf (write d st buf timeout evs)) = b_i buf
    end.
Proof.
  intros d st buf timeout evs.
  destruct (write_run_inv d st buf timeout evs) as [Hc [_ [_ [Hs Hi]]]].
  split; [exact Hc | split; [exact Hs|]].
  destruct (write d st buf timeout evs) as [pc st' b|o st' b]; [|destruct o as [[]|]];
    simpl in *; exact Hi.
Qed.

(** X3: the only syscalls write issues are sends and waits for writability
    with the caller's timeout: never a receive or a connect, and never a
    wait with another timeout. *)
Theorem write_syscalls :
  forall d st buf timeout evs,
    issued_after (t_log st) (t_log (step_st (write d st buf timeout evs))) is_recv_or_connect /\
    issued_after (t_log st) (t_log (step_st (write d st buf timeout evs))) (other_wait timeout).
Proof.
  intros d st buf timeout evs.
  destruct (write_run_inv d st buf timeout evs) as [_ [H1 [H2 _]]]. split; assumption.
Qed.

Lemma write_step_view timeout pc st st' buf r :
  write_view (write_step timeout pc st buf r) = write_view (write_step timeout pc st' buf r).
Proof.
  destruct pc; unfold write_step, write_repeatSelect; simpl; split_ifs; reflexivity.
Qed.

Lemma run_write_view d timeout evs : forall pc st st' buf,
  write_view (run d (write_step timeout) evs (Next pc st buf))
  = write_view (run d (write_step timeout) (drop_shutdowns evs) (Next pc st' buf)).
Proof.
  induction evs as [|[r|] evs IH]; intros pc st st' buf; simpl.
  - reflexivity.
  - pose proof (write_step_view timeout pc st st' buf r) as Hv.
    destruct (write_step timeout pc st buf r) as [pc1 st1 b1|o1 st1 b1];
    destruct (write_step timeout pc st' buf r) as [pc2 st2 b2|o2 st2 b2];
      simpl in Hv; inversion Hv; subst.
    + apply IH.
    + rewrite !run_done. reflexivity.
  - apply IH.
Qed.

(** X4: a concurrent shutdownReadWrite does not affect a write in
    progress: its outcome and the caller's buffer are those of the same
    write with the shutdown left out. *)
Theorem write_ignores_shutdown :
  forall d st buf timeout evs,
    write_view (write d st buf timeout evs)
    = write_view (write d st buf timeout (drop_shutdowns evs)).
Proof.
  intros d st buf timeout evs. unfold write, write_begin.
  destruct (write_packetSize st <? to_int (b_size buf)).
  - rewrite !run_done. reflexivity.
  - apply run_write_view.
Qed.

(** X5: a read whose buffer (shorter than 2^31 bytes) is larger than
    min(65507, rcvSize - 28) raises [DatagramLimitException] before anything
    else: no syscall, the transceiver and the buffer are left as they were,
    whether or not the shutdown flag is set. *)
Theorem read_oversize_untouched :
  forall d st buf timeout evs,
    0 <= b_size buf < 2 ^ 31 -> read_packetSize st < b_size buf ->
    read d st buf timeout evs = Done (Raised (ThrowValue DatagramLimitException)) st buf.
Proof.
  intros d st buf timeout evs Hs Hp. unfold read, read_begin.
  rewrite (to_int_small _ Hs).
  replace (read_packetSize st <? b_size buf) with true by (symmetry; apply Z.ltb_lt; lia).
  apply run_done.
Qed.

Lemma read_oversize_untouched_witness :
  (0 <= 70000 < 2 ^ 31 /\ read_packetSize (mkT true false true 65536 65536 false None []) < 70000) /\
  read false (mkT true false true 65536 65536 false None []) (mkBuf 70000 0) 1000
       [EvResp resp_ready]
    = Done (Raised (ThrowValue DatagramLimitException))
           (mkT true false true 65536 65536 false None []) (mkBuf 70000 0).
Proof.
  split; [split; [lia | vm_compute; reflexivity]|].
  apply read_oversize_untouched; [simpl; lia | vm_compute; reflexivity].
Defined.


(** X7: on a transceiver whose [_connect] is false, read only uses [recv]:
    it never issues [recvfrom] nor a connect, never sets [_connect], and
    never associates the socket with another peer (a concurrent shutdown
    may disconnect it). *)
Theorem read_connected_uses_recv :
  forall d st buf timeout evs,
    t_connect st = false ->
    t_connect (step_st (read d st buf timeout evs)) = false /\
    issued_after (t_log st) (t_log (step_st (read d st buf timeout evs))) is_recvfrom_or_connect /\
    (t_peer (step_st (read d st buf timeout evs)) = t_peer st \/
     t_peer (step_st (read d st buf timeout evs)) = None).
Proof.
  intros d st buf timeout evs H.
  enough (Hi : connected_inv st (read d st buf timeout evs)) by (destruct Hi as [? [? [? _]]]; auto).
  unfold read. apply run_invariant_simple.
  - intros pc st0 buf0 r [Hc [Hl [Hp Hpc]]].
    destruct pc as [| ret peer |]; [| contradiction |];
      unfold read_step, read_repeat, read_success, connected_inv; simpl; rewrite ?Hc.
    + assert (Hl' := issued_after_snoc _ _ is_recvfrom_or_connect (SysRecv (read_packetSize st)) Hl eq_refl).
      split_ifs; try congruence; repeat split; auto.
    + assert (Hl' := issued_after_snoc _ _ is_recvfrom_or_connect (SysPoll POLLIN (-1)) Hl eq_refl).
      split_ifs; try congruence; repeat split; auto.
  - intros pc st0 buf0 [Hc [Hl [Hp Hpc]]]. unfold connected_inv. simpl in *.
    rewrite shutdown_connect. split; [exact Hc|].
    split; [apply issued_after_shutdown; auto|]. split; [|exact Hpc].
    unfold shutdownReadWrite. destruct d; simpl; [rewrite Hc; simpl; right; reflexivity | exact Hp].
  - unfold read_begin, read_repeat, connected_inv. split_ifs;
      (split; [exact H | split; [apply issued_after_refl | split; [left; reflexivity | exact I]]]).
Qed.

Lemma read_connected_uses_recv_witness :
  t_connect (mkT true false false 65536 65536 false None []) = false /\
  t_log (step_st (read false (mkT true false false 65536 65536 false None []) (mkBuf 14 0) 1000
                       [EvResp (mkResp 14 EINTR addr0)])) = [SysRecv 65507] /\
  t_connect (step_st (read false (mkT true false false 65536 65536 false None []) (mkBuf 14 0) 1000
                       [EvResp (mkResp 14 EINTR addr0)])) = false.
Proof.
  split; [reflexivity|].
  pose proof (read_connected_uses_recv false (mkT true false false 65536 65536 false None [])
                (mkBuf 14 0) 1000 [EvResp (mkResp 14 EINTR addr0)] eq_refl) as [H _].
  split; [reflexivity | exact H].
Defined.

(** X8: with no configured buffer sizes, setBufSize never asks the OS to
    change a buffer: the kernel is left as it was, its default sizes are
    stored, and a warning is logged exactly when a default is below 28. *)
Theorem setBufSize_without_configuration :
  forall k st,
    let '(st', k', ws) := setBufSize noProperties k st in
    k' = k /\ t_rcvSize st' = k_rcv k /\ t_sndSize st' = k_snd k /\
    (ws = [] <-> udpOverhead <= k_rcv k /\ udpOverhead <= k_snd k).
Proof.
  intros k st.
  unfold setBufSize. cbn [fold_left].
  unfold setBufSize_iter, getPropertyAsIntWithDefault, noProperties. simpl.
  destruct (getRecvBufferSize k <? udpOverhead) eqn:Hr; rewrite Z.eqb_refl; simpl;
  destruct (getSendBufferSize k <? udpOverhead) eqn:Hs; rewrite Z.eqb_refl; simpl;
  unfold getRecvBufferSize, getSendBufferSize in *;
  rewrite ?Z.ltb_lt, ?Z.ltb_ge in *;
  (split; [reflexivity | split; [reflexivity | split; [reflexivity|]]]);
  split; intros H; try discriminate; try reflexivity; lia.
Qed.

End Udp.
